(** * ZkUbi: the public-signal encoder of [nextjs/lib/pcd.ts]

    A shallow embedding of the module that turns a ticket claim into the
    ordered vector of public signals of the ticket circuit, and of the
    frontend check of a proof, with the properties the specification states
    about them.

    JavaScript values are modelled as follows.
    - [bigint] is [Z]; [x >> n] is [Z.shiftr]; [x.toString()] is the decimal
      numeral of [x].
    - [number] is [Z]: the timestamps and the ticket category are integers,
      and below 2^53 [Number.prototype.toString] prints an integer as its
      decimal numeral.
    - [string] is [string], read as the sequence of the bytes of its UTF-8
      form; an optional field [f?: T] is [option T].
    - an array is a list of slots; a slot that was never written reads
      [undefined].
    - [throw] is the [Throw] branch of [result]. *)

From Stdlib Require Import ZArith String Ascii List Lia DecimalString.
From Stdlib Require Import DecimalZ.
From stdpp Require Import base list strings.

(** ** Exceptions *)

Inductive JsError : Type :=
| Error (message : string)
| SyntaxError (message : string).

Inductive result (A : Type) : Type :=
| Ok (a : A)
| Throw (e : JsError).
Arguments Ok {A} a.
Arguments Throw {A} e.

#[global] Instance result_ret : MRet result := fun A a => Ok a.
#[global] Instance result_bind : MBind result := fun A B k r =>
  match r with
  | Ok a => k a
  | Throw e => Throw e
  end.

#[global] Instance result_fmap : FMap result := fun A B f r =>
  match r with
  | Ok a => Ok (f a)
  | Throw e => Throw e
  end.

Definition returns {A} (r : result A) : bool :=
  match r with
  | Ok _ => true
  | Throw _ => false
  end.

(** ** Strings, numerals and arrays *)

(** [x.toString()] of a bigint, and of an integral number. *)
Definition toString (x : Z) : string := NilZero.string_of_int (Z.to_int x).

(** A string is falsy exactly when it is empty. *)
Definition truthy (s : string) : bool :=
  match s with
  | EmptyString => false
  | String _ _ => true
  end.

(** [a || b] where [a] is a string or [undefined]. *)
Definition js_or (a : option string) (b : string) : string :=
  match a with
  | Some s => if truthy s then s else b
  | None => b
  end.

(** A slot of a [string[]] at run time. *)
Inductive JsStr : Type :=
| Undefined
| Str (s : string).

(** [new Array<string>(n)]: [n] slots, none written yet. *)
Definition new_Array (n : nat) : list JsStr := replicate n Undefined.

(** [a[i] = s]. Writing past the end grows the array and leaves the slots in
    between unwritten. *)
Definition array_set (a : list JsStr) (i : nat) (s : string) : list JsStr :=
  if decide (i < length a) then <[i := Str s]> a
  else a ++ replicate (i - length a) Undefined ++ [Str s].

(** [a.push(s)]. *)
Definition push (a : list JsStr) (s : string) : list JsStr := a ++ [Str s].

(** ** Hexadecimal literals *)

Section Hex.
Local Open Scope Z_scope.

Definition hex_digit (c : ascii) : option Z :=
  let n := Z.of_N (N_of_ascii c) in
  if (48 <=? n) && (n <=? 57) then Some (n - 48)
  else if (97 <=? n) && (n <=? 102) then Some (n - 87)
  else if (65 <=? n) && (n <=? 70) then Some (n - 55)
  else None.

Fixpoint hex_digits (acc : Z) (s : string) : option Z :=
  match s with
  | EmptyString => Some acc
  | String c s' =>
      match hex_digit c with
      | Some d => hex_digits (16 * acc + d) s'
      | None => None
      end
  end.

(** [BigInt('0x' + h)]: the value of the hexadecimal literal, a [SyntaxError]
    when [h] is not a non-empty run of hexadecimal digits. *)
Definition BigInt_0x (h : string) : result Z :=
  match h with
  | EmptyString => Throw (SyntaxError "Cannot convert 0x to a BigInt")
  | _ =>
      match hex_digits 0 h with
      | Some z => Ok z
      | None => Throw (SyntaxError ("Cannot convert 0x" ++ h ++ " to a BigInt"))
      end
  end.

(** The bytes a string of hexadecimal digit pairs writes down. *)
Fixpoint bytes_of_hex (s : string) : option (list Z) :=
  match s with
  | EmptyString => Some []
  | String c1 (String c2 s') =>
      match hex_digit c1, hex_digit c2, bytes_of_hex s' with
      | Some h, Some l, Some bs => Some ((16 * h + l) :: bs)
      | _, _, _ => None
      end
  | String _ EmptyString => None
  end.

(** A sequence of bytes read as one unsigned integer, first byte most
    significant. *)
Definition big_endian (bs : list Z) : Z :=
  fold_left (fun acc b => 256 * acc + b) bs 0.

(** The shape of a SHA-256 digest in hexadecimal: 64 digits. *)
Definition hex_digest (h : string) : bool :=
  (String.length h =? 64)%nat
  && forallb (fun c => bool_decide (is_Some (hex_digit c))) (list_ascii_of_string h).

(** A run of [n] hexadecimal digits. *)
Definition hex_run (n : nat) (s : string) : Prop :=
  String.length s = n
  /\ forallb (fun c => bool_decide (is_Some (hex_digit c))) (list_ascii_of_string s) = true.

End Hex.

(** ** The imported packages

    The module computes with functions of three packages whose code is not
    part of the repository. They are taken as interfaces, at the types the
    module uses them at. *)

(** [js-sha256]: [sha256(message)] is the digest of the message in
    hexadecimal, 64 digits for the 32 bytes of the digest. *)
Class JsSha256 : Type := {
  sha256 : string -> string;
  sha256_hex_digest : forall message, hex_digest (sha256 message) = true
}.

(** [@pcd/util]: the conversions into [bigint] of an identifier (a UUID), of
    a hexadecimal string, and of a number, at their declared types: each
    returns a [bigint] for every argument. An exception raised inside one of
    them is outside this model. *)
Class PcdUtil : Type := {
  uuidToBigInt : string -> Z;
  hexToBigInt : string -> Z;
  numberToBigInt : Z -> Z
}.

(** Modelled from the spec: [booleanToBigInt] of [@pcd/util], whose code is
    not in the repository. "Boolean fields (isConsumed, isRevoked): encode
    false -> 0, true -> 1." *)
Definition booleanToBigInt (v : bool) : Z := if v then 1%Z else 0%Z.

(** ** The claim of a ticket proof *)

(** [Partial<ITicketData>]: every field may be left out. *)
Record PartialTicket : Type := {
  ticketId : option string;
  eventId : option string;
  productId : option string;
  timestampConsumed : option Z;
  timestampSigned : option Z;
  attendeeSemaphoreId : option string;
  isConsumed : option bool;
  isRevoked : option bool;
  ticketCategory : option Z;
  attendeeEmail : option string;
  attendeeName : option string
}.

(** The claim. [watermark], [externalNullifier] and [nullifierHash] are
    strings, on which [toString()] returns the string itself. *)
Record ZKEdDSAEventTicketPCDClaim : Type := {
  partialTicket : PartialTicket;
  watermark : string;
  signer : string * string;
  validEventIds : option (list string);
  externalNullifier : option string;
  nullifierHash : option string
}.

(** [@pcd/zk-eddsa-event-ticket-pcd]: the package reads a serialized proof
    and checks it. Both calls are awaited; their results are what the
    promises resolve to. *)
Class TicketPCDPackage : Type := {
  SerializedPCD : Type;
  ZKEdDSAEventTicketPCD : Type;
  claim : ZKEdDSAEventTicketPCD -> ZKEdDSAEventTicketPCDClaim;
  deserialize : SerializedPCD -> ZKEdDSAEventTicketPCD;
  verify : ZKEdDSAEventTicketPCD -> bool
}.

(** ** The module [nextjs/lib/pcd.ts] *)

(** Encoding of -1 in a Baby Jubjub field element (as p-1). *)
Definition BABY_JUB_NEGATIVE_ONE : Z :=
  21888242871839275222246405745257275088548364400416034343698204186575808495616%Z.

(** Max supported size of validEventIds field in ZKEdDSAEventTicketPCDArgs. *)
Definition VALID_EVENT_IDS_MAX_LEN : nat := 20.

Section Encoder.
Context {hash : JsSha256} {util : PcdUtil}.

Definition generateSnarkMessageHash (signal : string) : result Z :=
  x ← BigInt_0x (sha256 signal);
  mret (Z.shiftr x 8).

Definition STATIC_TICKET_PCD_NULLIFIER : result Z :=
  generateSnarkMessageHash "dummy-nullifier-for-eddsa-event-ticket-pcds".

(** The error [snarkInputForValidEventIds] throws on a list of [given]
    identifiers. *)
Definition too_many_validEventIds (given : nat) : JsError :=
  Error ("validEventIds for a ZKEdDSAEventTicketPCD can have up to 100 entries.  "
         ++ toString (Z.of_nat given) ++ " given.").

Definition snarkInputForValidEventIds (validEventIds : option (list string))
  : result (list JsStr) :=
  let validEventIds := default [] validEventIds in
  if decide (VALID_EVENT_IDS_MAX_LEN < length validEventIds)
  then Throw (too_many_validEventIds (length validEventIds))
  else
    let snarkIds := new_Array VALID_EVENT_IDS_MAX_LEN in
    let i := 0 in
    (* for (const validId of validEventIds) { snarkIds[i] = ...; ++i } *)
    let '(snarkIds, i) :=
      fold_left
        (fun '(snarkIds, i) validId =>
           (array_set snarkIds i (toString (uuidToBigInt validId)), S i))
        validEventIds (snarkIds, i) in
    (* for (; i < VALID_EVENT_IDS_MAX_LEN; ++i) snarkIds[i] = ... *)
    let snarkIds :=
      fold_left
        (fun snarkIds i => array_set snarkIds i (toString BABY_JUB_NEGATIVE_ONE))
        (seq i (VALID_EVENT_IDS_MAX_LEN - i)) snarkIds in
    Ok snarkIds.

Definition publicSignalsFromClaim (claim : ZKEdDSAEventTicketPCDClaim)
  : result (list JsStr) :=
  let t := partialTicket claim in
  let ret : list JsStr := [] in
  let negOne := toString BABY_JUB_NEGATIVE_ONE in
  (* Outputs appear in public signals first *)
  let ret := push ret
    (match ticketId t with
     | None => negOne
     | Some v => toString (uuidToBigInt v)
     end) in
  let ret := push ret
    (match eventId t with
     | None => negOne
     | Some v => toString (uuidToBigInt v)
     end) in
  let ret := push ret
    (match productId t with
     | None => negOne
     | Some v => toString (uuidToBigInt v)
     end) in
  let ret := push ret
    (match timestampConsumed t with
     | None => negOne
     | Some v => toString v
     end) in
  let ret := push ret
    (match timestampSigned t with
     | None => negOne
     | Some v => toString v
     end) in
  let ret := push ret (js_or (attendeeSemaphoreId t) negOne) in
  let ret := push ret
    (match isConsumed t with
     | None => negOne
     | Some v => toString (booleanToBigInt v)
     end) in
  let ret := push ret
    (match isRevoked t with
     | None => negOne
     | Some v => toString (booleanToBigInt v)
     end) in
  let ret := push ret
    (match ticketCategory t with
     | None => negOne
     | Some v => toString (numberToBigInt v)
     end) in
  attendeeEmailHash ←
    match attendeeEmail t with
    | None => Ok negOne
    | Some v => toString <$> generateSnarkMessageHash v
    end;
  let ret := push ret attendeeEmailHash in
  attendeeNameHash ←
    match attendeeName t with
    | None => Ok negOne
    | Some v => toString <$> generateSnarkMessageHash v
    end;
  let ret := push ret attendeeNameHash in
  (* Placeholder for reserved field *)
  let ret := push ret negOne in
  let ret := push ret (js_or (nullifierHash claim) negOne) in
  (* Public inputs appear in public signals in declaration order *)
  let ret := push ret (toString (hexToBigInt (signer claim).1)) in
  let ret := push ret (toString (hexToBigInt (signer claim).2)) in
  snarkIds ← snarkInputForValidEventIds (validEventIds claim);
  (* for (const eventId of snarkIds) ret.push(eventId) *)
  let ret := fold_left (fun ret eventId => ret ++ [eventId]) snarkIds ret in
  (* checkValidEventIds *)
  let ret := push ret
    (match validEventIds claim with
     | Some _ => "1"
     | None => "0"
     end) in
  (* claim.externalNullifier?.toString() || STATIC_TICKET_PCD_NULLIFIER.toString() *)
  nullifier ←
    match externalNullifier claim with
    | Some v => if truthy v then Ok v else toString <$> STATIC_TICKET_PCD_NULLIFIER
    | None => toString <$> STATIC_TICKET_PCD_NULLIFIER
    end;
  let ret := push ret nullifier in
  let ret := push ret (watermark claim) in
  Ok ret.

Definition isETHBerlinPublicKey (signer : string * string) : bool :=
  bool_decide
    (signer.1 = "1ebfb986fbac5113f8e2c72286fe9362f8e7d211dbc68227a468d7b919e75003")
  && bool_decide
    (signer.2 = "10ec38f11baacad5535525bbe8e343074a483c051aa1616266f3b1df3fb7d204").

End Encoder.

(** What an [async] arrow function without a return type resolves to here:
    [undefined] after a bare [return], or a boolean. *)
Inductive JsRet : Type :=
| RetUndefined
| RetBool (b : bool).

Section Frontend.
Context {util : PcdUtil} {package : TicketPCDPackage}.

(** The result is the lines written with [console.error], in order, and the
    value the promise resolves to. *)
Definition verifyProofFrontend (_pcd : SerializedPCD) (address : string)
  : list string * JsRet :=
  let deserializedPCD := deserialize _pcd in
  if negb (verify deserializedPCD)
  then (["[ERROR Frontend] ZK ticket PCD is not valid"], RetUndefined)
  else if negb (isETHBerlinPublicKey (signer (claim deserializedPCD)))
  then (["[ERROR Frontend] PCD is not signed by ETHBerlin"], RetUndefined)
  else if bool_decide
            (watermark (claim deserializedPCD) ≠ toString (hexToBigInt address))
  then (["[ERROR Frontend] PCD watermark doesn't match"], RetUndefined)
  else ([], RetBool true).

(** The three checks of [verifyProofFrontend]: the proof verifies, the signer
    is the ETHBerlin key, the watermark is the address as a decimal string. *)
Definition checks_succeed (_pcd : SerializedPCD) (address : string) : Prop :=
  verify (deserialize _pcd) = true
  /\ ((signer (claim (deserialize _pcd))).1
       = "1ebfb986fbac5113f8e2c72286fe9362f8e7d211dbc68227a468d7b919e75003"
      /\ (signer (claim (deserialize _pcd))).2
         = "10ec38f11baacad5535525bbe8e343074a483c051aa1616266f3b1df3fb7d204")
  /\ watermark (claim (deserialize _pcd)) = toString (hexToBigInt address).

End Frontend.

(** ** [BigInt] of a string *)

(** The code points [StrWhiteSpaceChar] accepts (WhiteSpace and
    LineTerminator), each as the bytes of its UTF-8 form: TAB, LF, VT, FF,
    CR, SP, U+00A0, U+1680, U+2000 to U+200A, U+2028, U+2029, U+202F,
    U+205F, U+3000, U+FEFF. *)
Definition white_space : list (list N) :=
  [ [9]; [10]; [11]; [12]; [13]; [32]; [194; 160]; [225; 154; 128];
    [226; 128; 128]; [226; 128; 129]; [226; 128; 130]; [226; 128; 131];
    [226; 128; 132]; [226; 128; 133]; [226; 128; 134]; [226; 128; 135];
    [226; 128; 136]; [226; 128; 137]; [226; 128; 138];
    [226; 128; 168]; [226; 128; 169]; [226; 128; 175]; [226; 129; 159];
    [227; 128; 128]; [239; 187; 191] ]%N.

(** [text] without the bytes [prefix] it starts with. *)
Fixpoint strip (prefix : list N) (text : list ascii) : option (list ascii) :=
  match prefix, text with
  | [], _ => Some text
  | b :: prefix', c :: text' =>
      if (N_of_ascii c =? b)%N then strip prefix' text' else None
  | _ :: _, [] => None
  end.

(** [text] without the first of [table] it starts with. *)
Definition strip_any (table : list (list N)) (text : list ascii)
  : option (list ascii) :=
  head (omap (fun prefix => strip prefix text) table).

(** [text] without the code points of [table] it starts with; a step removes
    a byte at least, so [length text] steps are enough. *)
Fixpoint strip_all (table : list (list N)) (steps : nat) (text : list ascii)
  : list ascii :=
  match steps with
  | O => text
  | S k =>
      match strip_any table text with
      | Some text' => strip_all table k text'
      | None => text
      end
  end.

(** [StrWhiteSpace] removed at both ends. *)
Definition trim (text : list ascii) : list ascii :=
  let text := strip_all white_space (length text) text in
  rev (strip_all (map (@rev N) white_space) (length text) (rev text)).

(** The value of a run of digits in a base up to 16. *)
Fixpoint radix_digits (base acc : Z) (digits : list ascii) : option Z :=
  match digits with
  | [] => Some acc
  | c :: digits' =>
      match hex_digit c with
      | Some d =>
          if (d <? base)%Z then radix_digits base (base * acc + d) digits'
          else None
      | None => None
      end
  end.

(** At least one digit. *)
Definition digits_value (base : Z) (digits : list ascii) : option Z :=
  match digits with
  | [] => None
  | _ :: _ => radix_digits base 0 digits
  end.

(** [StrIntegerLiteral]: a decimal numeral with an optional sign, or an
    unsigned numeral after [0x], [0o] or [0b] in either case. The empty text
    has the value 0. *)
Definition integer_literal (text : list ascii) : option Z :=
  match text with
  | [] => Some 0%Z
  | c :: rest =>
      if (c =? "+")%char then digits_value 10 rest
      else if (c =? "-")%char then Z.opp <$> digits_value 10 rest
      else if (c =? "0")%char then
        match rest with
        | p :: digits =>
            if (p =? "x")%char || (p =? "X")%char then digits_value 16 digits
            else if (p =? "o")%char || (p =? "O")%char then digits_value 8 digits
            else if (p =? "b")%char || (p =? "B")%char then digits_value 2 digits
            else digits_value 10 text
        | [] => digits_value 10 text
        end
      else digits_value 10 text
  end.

(** [BigInt(s)] for a string [s]: its value, or a [SyntaxError] with the
    message of V8. *)
Definition BigInt (s : string) : result Z :=
  match integer_literal (trim (list_ascii_of_string s)) with
  | Some x => Ok x
  | None => Throw (SyntaxError ("Cannot convert " ++ s ++ " to a BigInt"))
  end.


(** ** The rest of the module: [generateWitness] *)

(** What a statement may throw besides a [JsError] of the encoder: the
    [TypeError] of reading a property of [undefined], and of
    [BigInt(undefined)], with the messages of V8. *)
Inductive Thrown : Type :=
| Raised (e : JsError)
| TypeError (message : string).

(** How a call completes: normally with a value, or abruptly. *)
Inductive completion (A : Type) : Type :=
| Normal (a : A)
| Abrupt (e : Thrown).
Arguments Normal {A} a.
Arguments Abrupt {A} e.

#[global] Instance completion_ret : MRet completion := fun A a => Normal a.
#[global] Instance completion_bind : MBind completion := fun A B k r =>
  match r with
  | Normal a => k a
  | Abrupt e => Abrupt e
  end.

(** A call of the encoder inside such a statement. *)
Definition completed {A} (r : result A) : completion A :=
  match r with
  | Ok a => Normal a
  | Throw e => Abrupt (Raised e)
  end.

Definition completes {A} (r : completion A) : bool :=
  match r with
  | Normal _ => true
  | Abrupt _ => false
  end.

(** [x => BigInt(x)] on a slot of the array [publicSignalsFromClaim]
    returns, which holds a string or the value [undefined]. *)
Definition BigInt_of_slot (x : JsStr) : completion Z :=
  match x with
  | Str s => completed (BigInt s)
  | Undefined => Abrupt (TypeError "Cannot convert undefined to a BigInt")
  end.

(** [arr.map(x => BigInt(x))]: the slots in order, up to the first that
    throws. *)
Fixpoint convertStringArrayToBigIntArray (arr : list JsStr) : completion (list Z) :=
  match arr with
  | [] => Normal []
  | x :: arr' =>
      y ← BigInt_of_slot x;
      ys ← convertStringArrayToBigIntArray arr';
      mret (y :: ys)
  end.

(** The proof of snarkjs, as far as the module reads it. *)
Record Groth16Proof : Type := {
  pi_a : list string;
  pi_b : list (list string);
  pi_c : list string
}.

(** [pcd.proof] of the package's PCD. *)
Class TicketPCDProof {package : TicketPCDPackage} : Type := {
  proof : ZKEdDSAEventTicketPCD -> Groth16Proof
}.

(** [{ _pA, _pB, _pC, _pubSignals }]. *)
Record Witness : Type := {
  _pA : list string;
  _pB : list (list string);
  _pC : list string;
  _pubSignals : list Z
}.

(** [rows[i].slice(0)]: a copy of row [i], a [TypeError] when there is no
    such row. *)
Definition row_slice (rows : list (list string)) (i : nat)
  : completion (list string) :=
  match rows !! i with
  | Some row => Normal row
  | None =>
      Abrupt (TypeError "Cannot read properties of undefined (reading 'slice')")
  end.

Section Witnesses.
Context {hash : JsSha256} {util : PcdUtil}.
Context {package : TicketPCDPackage} {proofs : TicketPCDProof}.

(** The result is what [console.log] was called with after ['Witness:'], and
    the object returned. *)
Definition generateWitness (pcd : ZKEdDSAEventTicketPCD)
  : completion (list Witness * Witness) :=
  let _pA := take 2 (pi_a (proof pcd)) in
  row0 ← row_slice (pi_b (proof pcd)) 0;
  row1 ← row_slice (pi_b (proof pcd)) 1;
  let _pB := [rev row0; rev row1] in
  let _pC := take 2 (pi_c (proof pcd)) in
  signals ← completed (publicSignalsFromClaim (claim pcd));
  _pubSignals ← convertStringArrayToBigIntArray signals;
  let witness :=
    {| _pA := _pA; _pB := _pB; _pC := _pC; _pubSignals := _pubSignals |} in
  mret ([witness], witness).

End Witnesses.

(** [ETHBERLIN_ZUAUTH_CONFIG], the configuration [getProof] asks a proof
    for. The fields of [PipelineEdDSATicketZuAuthConfig] are in a module of
    their own, [eventId] and [productId] being fields of the ticket too. *)
Module ZuAuth.

Record PipelineEdDSATicketZuAuthConfig : Type := {
  pcdType : string;
  publicKey : string * string;
  eventId : string;
  eventName : string;
  productId : string;
  productName : string
}.

Definition ETHBERLIN_ZUAUTH_CONFIG : list PipelineEdDSATicketZuAuthConfig :=
  [ {| pcdType := "eddsa-ticket-pcd";
       publicKey :=
         ("1ebfb986fbac5113f8e2c72286fe9362f8e7d211dbc68227a468d7b919e75003",
          "10ec38f11baacad5535525bbe8e343074a483c051aa1616266f3b1df3fb7d204");
       eventId := "53edb3e7-6733-41e0-a9be-488877c5c572";
       eventName := "ETHBerlin04";
       productId := "";
       productName := "" |} ].

End ZuAuth.

(** ** SHA-256

    SHA-256 as FIPS 180-4 defines it, on the bytes of the message, with the
    digest printed in lower-case hexadecimal as [js-sha256] prints it. It
    gives the interface [JsSha256] an implementation to evaluate the encoder
    with. The round constants are computed from the primes they are defined
    by. *)

Module SHA256.
Local Open Scope Z_scope.

Definition add32 (x y : Z) : Z := (x + y) mod 2 ^ 32.

Definition rotr (n x : Z) : Z :=
  Z.lor (Z.shiftr x n) (Z.shiftl x (32 - n) mod 2 ^ 32).

Definition Ch (x y z : Z) : Z := Z.lxor (Z.land x y) (Z.ldiff z x).
Definition Maj (x y z : Z) : Z :=
  Z.lxor (Z.lxor (Z.land x y) (Z.land x z)) (Z.land y z).
Definition Sigma0 (x : Z) : Z := Z.lxor (Z.lxor (rotr 2 x) (rotr 13 x)) (rotr 22 x).
Definition Sigma1 (x : Z) : Z := Z.lxor (Z.lxor (rotr 6 x) (rotr 11 x)) (rotr 25 x).
Definition sigma0 (x : Z) : Z := Z.lxor (Z.lxor (rotr 7 x) (rotr 18 x)) (Z.shiftr x 3).
Definition sigma1 (x : Z) : Z := Z.lxor (Z.lxor (rotr 17 x) (rotr 19 x)) (Z.shiftr x 10).

Definition primes : list Z :=
  [2; 3; 5; 7; 11; 13; 17; 19; 23; 29; 31; 37; 41; 43; 47; 53; 59; 61; 67; 71;
   73; 79; 83; 89; 97; 101; 103; 107; 109; 113; 127; 131; 137; 139; 149; 151;
   157; 163; 167; 173; 179; 181; 191; 193; 197; 199; 211; 223; 227; 229; 233;
   239; 241; 251; 257; 263; 269; 271; 277; 281; 283; 293; 307; 311].

(** The integer cube root, found bit by bit from bit [bits - 1] down. *)
Fixpoint cube_root (bits : nat) (n r : Z) : Z :=
  match bits with
  | O => r
  | S k =>
      let r' := r + 2 ^ Z.of_nat k in
      cube_root k n (if r' * r' * r' <=? n then r' else r)
  end.

(** The first 32 bits of the fractional part of the cube root, and of the
    square root, of [p]. *)
Definition frac_cube_root (p : Z) : Z := cube_root 36 (p * 2 ^ 96) 0 mod 2 ^ 32.
Definition frac_sqrt (p : Z) : Z := Z.sqrt (p * 2 ^ 64) mod 2 ^ 32.

Definition K : list Z := Eval vm_compute in map frac_cube_root primes.

Record state : Type := State {
  h0 : Z; h1 : Z; h2 : Z; h3 : Z; h4 : Z; h5 : Z; h6 : Z; h7 : Z
}.

Definition initial : state :=
  Eval vm_compute in
    match map frac_sqrt (take 8 primes) with
    | [a; b; c; d; e; f; g; h] => State a b c d e f g h
    | _ => State 0 0 0 0 0 0 0 0
    end.

(** The message, the byte [0x80], zero bytes up to 56 modulo 64, and the
    length of the message in bits on 8 bytes. *)
Definition bytes_of (message : string) : list Z :=
  map (fun c => Z.of_N (N_of_ascii c)) (list_ascii_of_string message).

Definition be_bytes (width : nat) (x : Z) : list Z :=
  map (fun i => (x / 256 ^ Z.of_nat (width - 1 - i)) mod 256) (seq 0 width).

Definition pad (m : list Z) : list Z :=
  let len := Z.of_nat (length m) in
  m ++ [128] ++ replicate (Z.to_nat ((55 - len) mod 64)) 0 ++ be_bytes 8 (8 * len).

Fixpoint words (fuel : nat) (bs : list Z) : list Z :=
  match fuel, bs with
  | S k, b3 :: b2 :: b1 :: b0 :: rest =>
      (((b3 * 256 + b2) * 256 + b1) * 256 + b0) :: words k rest
  | _, _ => []
  end.

(** The message schedule: the 16 words of the block, then 48 derived words. *)
Definition schedule (block : list Z) : list Z :=
  fold_left
    (fun w t =>
       w ++ [add32 (add32 (sigma1 (nth (t - 2) w 0)) (nth (t - 7) w 0))
                   (add32 (sigma0 (nth (t - 15) w 0)) (nth (t - 16) w 0))])
    (seq 16 48) block.

Definition round (s : state) (kw : Z * Z) : state :=
  let t1 := add32 (add32 (add32 (h7 s) (Sigma1 (h4 s)))
                         (add32 (Ch (h4 s) (h5 s) (h6 s)) kw.1)) kw.2 in
  let t2 := add32 (Sigma0 (h0 s)) (Maj (h0 s) (h1 s) (h2 s)) in
  State (add32 t1 t2) (h0 s) (h1 s) (h2 s) (add32 (h3 s) t1) (h4 s) (h5 s) (h6 s).

Definition compress (s : state) (block : list Z) : state :=
  let r := fold_left round (zip K (schedule block)) s in
  State (add32 (h0 s) (h0 r)) (add32 (h1 s) (h1 r)) (add32 (h2 s) (h2 r))
        (add32 (h3 s) (h3 r)) (add32 (h4 s) (h4 r)) (add32 (h5 s) (h5 r))
        (add32 (h6 s) (h6 r)) (add32 (h7 s) (h7 r)).

Fixpoint blocks (fuel : nat) (ws : list Z) : list (list Z) :=
  match fuel with
  | O => []
  | S k => if decide (length ws < 16)%nat then [] else take 16 ws :: blocks k (drop 16 ws)
  end.

Definition digest (message : string) : state :=
  let bs := pad (bytes_of message) in
  let ws := words (length bs) bs in
  fold_left compress (blocks (length ws) ws) initial.

Definition nibble (x : Z) : ascii :=
  match String.get (Z.to_nat (x mod 16)) "0123456789abcdef" with
  | Some c => c
  | None => "0"%char
  end.

Definition word_hex (w : Z) : string :=
  string_of_list_ascii (map (fun i => nibble (Z.shiftr w (4 * Z.of_nat (7 - i)))) (seq 0 8)).

Definition hexdigest (message : string) : string :=
  let s := digest message in
  word_hex (h0 s) ++ word_hex (h1 s) ++ word_hex (h2 s) ++ word_hex (h3 s)
  ++ word_hex (h4 s) ++ word_hex (h5 s) ++ word_hex (h6 s) ++ word_hex (h7 s).

End SHA256.

(** ** What the specification names

    The encodings of section 4.1, in the specification's words, to compare
    the module with. *)

Section Specification.
Context {hash : JsSha256} {util : PcdUtil}.

(** "NEGATIVE_ONE": the sentinel [P - 1], as the string the encoder emits. *)
Definition NEGATIVE_ONE : string := toString BABY_JUB_NEGATIVE_ONE.

(** The 32 bytes of the digest of a message. *)
Definition digest_bytes (message : string) : list Z :=
  default [] (bytes_of_hex (sha256 message)).

(** "hashToFieldElement": the digest, interpreted as a big-endian unsigned
    integer, then right-shifted by 8 bits. *)
Definition hashToFieldElement (message : string) : Z :=
  Z.shiftr (big_endian (digest_bytes message)) 8.

(** The "fixed well-known default nullifier value". *)
Definition default_nullifier : Z :=
  hashToFieldElement "dummy-nullifier-for-eddsa-event-ticket-pcds".

(** "encodeAllowlist": the encoded identifiers in input order, then
    NEGATIVE_ONE in the unused trailing slots, [maxLen] = 20 slots in all. *)
Definition encodeAllowlist (ids : option (list string)) : list string :=
  let ids := default [] ids in
  map (fun id => toString (uuidToBigInt id)) ids
  ++ replicate (VALID_EVENT_IDS_MAX_LEN - length ids) NEGATIVE_ONE.

(** "For every optional scalar claim field, emits NEGATIVE_ONE if absent,
    else its canonical encoding." *)
Definition encode_optional {A} (encoding : A -> string) (field : option A) : string :=
  match field with
  | Some v => encoding v
  | None => NEGATIVE_ONE
  end.

(** "Public Signal Vector" and its "exact positional layout". The three
    slots written with [||] in the module hold the field when it is present
    and not the empty string. *)
Definition PublicSignalVector (c : ZKEdDSAEventTicketPCDClaim) : list string :=
  let t := partialTicket c in
  [ (* 0 ticketId *) encode_optional (fun v => toString (uuidToBigInt v)) (ticketId t);
    (* 1 eventId *) encode_optional (fun v => toString (uuidToBigInt v)) (eventId t);
    (* 2 productId *) encode_optional (fun v => toString (uuidToBigInt v)) (productId t);
    (* 3 timestampConsumed *) encode_optional toString (timestampConsumed t);
    (* 4 timestampSigned *) encode_optional toString (timestampSigned t);
    (* 5 attendeeSemaphoreId *) js_or (attendeeSemaphoreId t) NEGATIVE_ONE;
    (* 6 isConsumed *) encode_optional (fun v => toString (booleanToBigInt v)) (isConsumed t);
    (* 7 isRevoked *) encode_optional (fun v => toString (booleanToBigInt v)) (isRevoked t);
    (* 8 ticketCategory *) encode_optional (fun v => toString (numberToBigInt v)) (ticketCategory t);
    (* 9 attendeeEmailHash *) encode_optional (fun v => toString (hashToFieldElement v)) (attendeeEmail t);
    (* 10 attendeeNameHash *) encode_optional (fun v => toString (hashToFieldElement v)) (attendeeName t);
    (* 11 reservedPlaceholder *) NEGATIVE_ONE;
    (* 12 nullifierHash *) js_or (nullifierHash c) NEGATIVE_ONE;
    (* 13 signerX *) toString (hexToBigInt (signer c).1);
    (* 14 signerY *) toString (hexToBigInt (signer c).2) ]
  ++ (* 15..34 allowlist *) encodeAllowlist (validEventIds c)
  ++ [ (* 35 checkValidEventIds *) (if validEventIds c is Some _ then "1" else "0");
       (* 36 externalNullifier *) js_or (externalNullifier c) (toString default_nullifier);
       (* 37 watermark *) watermark c ].

End Specification.



(** The allowlist fits the 20 slots: it is absent, or has at most 20
    entries. *)
Definition allowlist_fits (ids : option (list string)) : Prop :=
  length (default [] ids) <= VALID_EVENT_IDS_MAX_LEN.




(** ** What the theorems on [generateWitness] name *)

(** A visible ASCII character: no byte of a white space code point. *)
Definition visible (c : ascii) : Prop := (33 <= N_of_ascii c <= 127)%N.

(** A decimal digit. *)
Definition decimal_digit (c : ascii) : Prop := (48 <= N_of_ascii c <= 57)%N.

(** The value of a decimal numeral of the Standard Library, digit by
    digit. *)
Fixpoint uint_value (d : Decimal.uint) (acc : Z) : Z :=
  match d with
  | Decimal.Nil => acc
  | Decimal.D0 d => uint_value d (10 * acc)
  | Decimal.D1 d => uint_value d (10 * acc + 1)
  | Decimal.D2 d => uint_value d (10 * acc + 2)
  | Decimal.D3 d => uint_value d (10 * acc + 3)
  | Decimal.D4 d => uint_value d (10 * acc + 4)
  | Decimal.D5 d => uint_value d (10 * acc + 5)
  | Decimal.D6 d => uint_value d (10 * acc + 6)
  | Decimal.D7 d => uint_value d (10 * acc + 7)
  | Decimal.D8 d => uint_value d (10 * acc + 8)
  | Decimal.D9 d => uint_value d (10 * acc + 9)
  end%Z.

(** [BigInt] accepts the string. *)
Definition accepted (s : string) : bool := returns (BigInt s).


Section Signals.
Context {hash : JsSha256}.


End Signals.


(** The claim with another [watermark]. *)
Definition with_watermark (c : ZKEdDSAEventTicketPCDClaim) (mark : string)
  : ZKEdDSAEventTicketPCDClaim :=
  {| partialTicket := partialTicket c;
     watermark := mark;
     signer := signer c;
     validEventIds := validEventIds c;
     externalNullifier := externalNullifier c;
     nullifierHash := nullifierHash c |}.

(** ** Implementations of the interfaces, and claims to evaluate *)

(** The hexadecimal digits of a string read in order, every other character
    skipped: the dashes of a UUID, the [x] of a [0x] prefix. *)
Fixpoint hex_number (acc : Z) (s : string) : Z :=
  match s with
  | EmptyString => acc
  | String c s' =>
      hex_number (match hex_digit c with
                  | Some d => 16 * acc + d
                  | None => acc
                  end)%Z s'
  end.

(** An implementation of [@pcd/util] to evaluate the encoder with. The
    theorems hold for every implementation; this one reads an identifier and
    a hexadecimal string by their hexadecimal digits. *)
Definition pcd_util_by_digits : PcdUtil := {|
  uuidToBigInt := hex_number 0;
  hexToBigInt := hex_number 0;
  numberToBigInt := fun v => v
|}.

(** A package that takes the claim and the verdict on the proof as they are
    given, to evaluate the frontend check with. *)
Definition package_by_verdict : TicketPCDPackage := {|
  SerializedPCD := ZKEdDSAEventTicketPCDClaim * bool;
  ZKEdDSAEventTicketPCD := ZKEdDSAEventTicketPCDClaim * bool;
  claim := fst;
  deserialize := fun pcd => pcd;
  verify := snd
|}.

(** ** Claims used in the examples *)

Definition no_ticket_fields : PartialTicket := {|
  ticketId := None; eventId := None; productId := None;
  timestampConsumed := None; timestampSigned := None;
  attendeeSemaphoreId := None; isConsumed := None; isRevoked := None;
  ticketCategory := None; attendeeEmail := None; attendeeName := None
|}.

Definition ETHBERLIN_PUBLIC_KEY : string * string :=
  ("1ebfb986fbac5113f8e2c72286fe9362f8e7d211dbc68227a468d7b919e75003",
   "10ec38f11baacad5535525bbe8e343074a483c051aa1616266f3b1df3fb7d204").

(** Nothing disclosed: only the signer and the watermark. *)
Definition bare_claim : ZKEdDSAEventTicketPCDClaim := {|
  partialTicket := no_ticket_fields;
  watermark := "1390849295786071768276380950238675083608645509734";
  signer := ETHBERLIN_PUBLIC_KEY;
  validEventIds := None;
  externalNullifier := None;
  nullifierHash := None
|}.

(** An ETHBerlin ticket with most fields disclosed, an allowlist of one
    event, and every pass-through field present. *)
Definition ethberlin_claim : ZKEdDSAEventTicketPCDClaim := {|
  partialTicket := {|
    ticketId := None;
    eventId := Some "53edb3e7-6733-41e0-a9be-488877c5c572";
    productId := Some "caa5cb88-19cc-4ee2-bf3d-6d379ce5e611";
    timestampConsumed := None;
    timestampSigned := Some 1716300000000%Z;
    attendeeSemaphoreId := Some "12345678901234567890";
    isConsumed := Some true;
    isRevoked := Some false;
    ticketCategory := Some 4%Z;
    attendeeEmail := Some "attendee@example.org";
    attendeeName := None
  |};
  watermark := "1390849295786071768276380950238675083608645509734";
  signer := ETHBERLIN_PUBLIC_KEY;
  validEventIds := Some ["53edb3e7-6733-41e0-a9be-488877c5c572"];
  externalNullifier := Some "42";
  nullifierHash := Some "987654321"
|}.




(** A package whose PCD is the proof, the claim and the verdict on the
    proof as they are given, to evaluate [generateWitness] with. *)
Definition package_with_proof : TicketPCDPackage := {|
  SerializedPCD := Groth16Proof * ZKEdDSAEventTicketPCDClaim * bool;
  ZKEdDSAEventTicketPCD := Groth16Proof * ZKEdDSAEventTicketPCDClaim * bool;
  claim := fun pcd => pcd.1.2;
  deserialize := fun pcd => pcd;
  verify := snd
|}.

Definition proof_of_package : @TicketPCDProof package_with_proof :=
  @Build_TicketPCDProof package_with_proof (fun pcd => pcd.1.1).

(** A proof in the layout of snarkjs: projective points, of three
    coordinates each. *)
Definition groth16_example : Groth16Proof := {|
  pi_a := ["11"; "12"; "1"];
  pi_b := [["21"; "22"]; ["23"; "24"]; ["1"; "0"]];
  pi_c := ["31"; "32"; "1"]
|}.

Definition ethberlin_pcd : @ZKEdDSAEventTicketPCD package_with_proof :=
  (groth16_example, ethberlin_claim, true).

Definition bare_pcd : @ZKEdDSAEventTicketPCD package_with_proof :=
  (groth16_example, bare_claim, true).

(** The PCD of [bare_pcd] with the address itself as the watermark. *)
Definition hex_watermark_pcd : @ZKEdDSAEventTicketPCD package_with_proof :=
  (groth16_example,
   with_watermark bare_claim "0xf39Fd6e51aad88F6F4ce6aB8827279cffFb92266",
   true).

(** ** Numerals *)





(** ** Hexadecimal literals *)

Section HexFacts.
Local Open Scope Z_scope.

Lemma hex_digit_range (c : ascii) (d : Z) : hex_digit c = Some d -> 0 <= d < 16.
Proof.
  unfold hex_digit.
  repeat case_match; intros [= <-]; lia.
Qed.

(** A run of [n] pairs of hexadecimal digits writes down [n] bytes, and read
    as one literal it is those bytes in big-endian order. *)
Lemma hex_pairs (n : nat) : forall (s : string),
  String.length s = (2 * n)%nat ->
  forallb (fun c => bool_decide (is_Some (hex_digit c))) (list_ascii_of_string s) = true ->
  exists bs : list Z,
    bytes_of_hex s = Some bs /\ length bs = n
    /\ Forall (fun b => 0 <= b < 256) bs
    /\ forall acc, hex_digits acc s = Some (fold_left (fun a b => 256 * a + b) bs acc).
Proof.
  induction n as [ | n IH]; intros s Hlen Hhex.
  - destruct s; [ | discriminate ]. exists []. by repeat split.
  - destruct s as [ | c1 [ | c2 s]]; simpl in Hlen; try lia.
    cbn [list_ascii_of_string forallb] in Hhex.
    apply andb_prop in Hhex as [H1 Hhex]. apply andb_prop in Hhex as [H2 Hhex].
    apply bool_decide_eq_true in H1 as [d1 H1].
    apply bool_decide_eq_true in H2 as [d2 H2].
    destruct (IH s) as (bs & Hbs & Hn & Hrange & Hval); [ lia | done | ].
    exists ((16 * d1 + d2) :: bs).
    pose proof (hex_digit_range _ _ H1). pose proof (hex_digit_range _ _ H2).
    repeat split.
    + cbn [bytes_of_hex]. by rewrite H1, H2, Hbs.
    + simpl. by rewrite Hn.
    + constructor; [ lia | done ].
    + intros acc. cbn [hex_digits fold_left]. rewrite H1, H2, Hval.
      f_equal. f_equal. lia.
Qed.

Lemma big_endian_range (bs : list Z) :
  Forall (fun b => 0 <= b < 256) bs ->
  0 <= big_endian bs < 256 ^ Z.of_nat (length bs).
Proof.
  unfold big_endian. induction bs as [ | b bs IH] using rev_ind; intros Hbs.
  - simpl. lia.
  - apply Forall_app in Hbs as [Hbs Hb]. apply Forall_inv in Hb.
    specialize (IH Hbs).
    rewrite fold_left_app, length_app. cbn [fold_left length].
    rewrite Nat2Z.inj_add, Z.pow_add_r by lia.
    change (256 ^ Z.of_nat 1) with 256. lia.
Qed.

(** [BigInt('0x' + h)] of a digest. *)
Lemma BigInt_0x_digest (h : string) :
  hex_digest h = true ->
  exists bs : list Z,
    bytes_of_hex h = Some bs /\ length bs = 32%nat
    /\ Forall (fun b => 0 <= b < 256) bs
    /\ BigInt_0x h = Ok (big_endian bs).
Proof.
  unfold hex_digest. intros Hh. apply andb_prop in Hh as [Hlen Hhex].
  apply Nat.eqb_eq in Hlen.
  destruct (hex_pairs 32 h) as (bs & Hbs & Hn & Hrange & Hval); [ done | done | ].
  exists bs. repeat split; try done.
  unfold BigInt_0x. destruct h; [ discriminate | ].
  by rewrite Hval.
Qed.

Lemma shiftr_8_range (x : Z) : 0 <= x < 2 ^ 256 -> 0 <= Z.shiftr x 8 < 2 ^ 248.
Proof.
  intros Hx. rewrite Z.shiftr_div_pow2 by lia.
  change (2 ^ 256) with (2 ^ 248 * 2 ^ 8) in Hx.
  split; [ apply Z.div_pos; lia | apply Z.div_lt_upper_bound; lia ].
Qed.

End HexFacts.

(** ** The hash of a message *)

Section EncoderFacts.
Context {hash : JsSha256} {util : PcdUtil}.

Lemma digest_bytes_shape (message : string) :
  bytes_of_hex (sha256 message) = Some (digest_bytes message)
  /\ length (digest_bytes message) = 32
  /\ Forall (fun b => 0 <= b < 256)%Z (digest_bytes message).
Proof.
  destruct (BigInt_0x_digest _ (sha256_hex_digest message)) as (bs & Hbs & Hn & Hr & _).
  unfold digest_bytes. rewrite Hbs. done.
Qed.

Lemma generateSnarkMessageHash_ok (message : string) :
  generateSnarkMessageHash message = Ok (hashToFieldElement message).
Proof.
  destruct (BigInt_0x_digest _ (sha256_hex_digest message)) as (bs & Hbs & _ & _ & Hv).
  unfold generateSnarkMessageHash, hashToFieldElement, digest_bytes.
  by rewrite Hbs, Hv.
Qed.

Lemma hashToFieldElement_range (message : string) :
  (0 <= hashToFieldElement message < 2 ^ 248)%Z.
Proof.
  destruct (digest_bytes_shape message) as (_ & Hn & Hr).
  apply shiftr_8_range. apply big_endian_range in Hr. by rewrite Hn in Hr.
Qed.

Lemma STATIC_TICKET_PCD_NULLIFIER_ok :
  STATIC_TICKET_PCD_NULLIFIER = Ok default_nullifier.
Proof. apply generateSnarkMessageHash_ok. Qed.

(** ** The two loops of [snarkInputForValidEventIds] *)

(** Writing the first unwritten slot. *)
Lemma array_set_frontier (done : list string) (k : nat) (x : string) :
  array_set ((Str <$> done) ++ replicate (S k) Undefined) (length done) x
  = (Str <$> (done ++ [x])) ++ replicate k Undefined.
Proof.
  unfold array_set. rewrite decide_True.
  - rewrite insert_app_r_alt by (rewrite length_fmap; lia).
    rewrite length_fmap, Nat.sub_diag, fmap_app, <- app_assoc. done.
  - rewrite length_app, length_fmap, length_replicate. lia.
Qed.

(** The [for ... of] loop writes the encoded identifiers from slot [i] on and
    counts them. *)
Lemma write_identifiers (n : nat) (ids done : list string) :
  length done + length ids <= n ->
  fold_left
    (fun '(snarkIds, i) validId =>
       (array_set snarkIds i (toString (uuidToBigInt validId)), S i))
    ids ((Str <$> done) ++ replicate (n - length done) Undefined, length done)
  = ((Str <$> (done ++ map (fun id => toString (uuidToBigInt id)) ids))
       ++ replicate (n - length done - length ids) Undefined,
     length done + length ids).
Proof.
  revert done. induction ids as [ | id ids IH]; intros done Hn.
  - simpl. by rewrite app_nil_r, Nat.sub_0_r, Nat.add_0_r.
  - simpl in Hn. cbn [fold_left map].
    replace (n - length done) with (S (n - length (done ++ [toString (uuidToBigInt id)])))
      by (rewrite length_app; simpl; lia).
    rewrite array_set_frontier.
    replace (S (length done)) with (length (done ++ [toString (uuidToBigInt id)]))
      by (rewrite length_app; simpl; lia).
    rewrite IH by (rewrite length_app; simpl; lia).
    rewrite <- app_assoc, length_app. simpl.
    apply pair_equal_spec; split; [ repeat f_equal; lia | lia ].
Qed.

(** The counting loop writes the sentinel into every slot that is left. *)
Lemma write_sentinels (x : string) (k : nat) : forall done : list string,
  fold_left (fun snarkIds i => array_set snarkIds i x) (seq (length done) k)
    ((Str <$> done) ++ replicate k Undefined)
  = Str <$> (done ++ replicate k x).
Proof.
  induction k as [ | k IH]; intros done.
  - simpl. by rewrite !app_nil_r.
  - cbn [seq fold_left]. rewrite array_set_frontier.
    replace (S (length done)) with (length (done ++ [x]))
      by (rewrite length_app; simpl; lia).
    rewrite IH, <- app_assoc. done.
Qed.

Lemma snarkInputForValidEventIds_eq (ids : option (list string)) :
  snarkInputForValidEventIds ids =
    if decide (VALID_EVENT_IDS_MAX_LEN < length (default [] ids))
    then Throw (too_many_validEventIds (length (default [] ids)))
    else Ok (Str <$> encodeAllowlist ids).
Proof.
  unfold snarkInputForValidEventIds, encodeAllowlist.
  case_decide as Hlen; [ done | ].
  pose proof (write_identifiers VALID_EVENT_IDS_MAX_LEN (default [] ids) []) as Hloop.
  cbn [length fmap list_fmap app Nat.add] in Hloop. rewrite Nat.sub_0_r in Hloop.
  unfold new_Array. rewrite Hloop by lia.
  pose proof (write_sentinels (toString BABY_JUB_NEGATIVE_ONE)
                (VALID_EVENT_IDS_MAX_LEN - length (default [] ids))
                (map (fun id => toString (uuidToBigInt id)) (default [] ids))) as Hpad.
  rewrite length_map in Hpad. by rewrite Hpad.
Qed.

Lemma encodeAllowlist_length (ids : option (list string)) :
  allowlist_fits ids -> length (encodeAllowlist ids) = VALID_EVENT_IDS_MAX_LEN.
Proof.
  unfold allowlist_fits, encodeAllowlist. intros Hfit.
  rewrite length_app, length_map, length_replicate. lia.
Qed.

(** ** The encoder as one vector *)

Lemma push_all (snarkIds ret : list JsStr) :
  fold_left (fun ret eventId => ret ++ [eventId]) snarkIds ret = ret ++ snarkIds.
Proof.
  revert ret. induction snarkIds as [ | x l IH]; intros ret; simpl.
  - by rewrite app_nil_r.
  - by rewrite IH, <- app_assoc.
Qed.

Lemma publicSignalsFromClaim_eq (c : ZKEdDSAEventTicketPCDClaim) :
  publicSignalsFromClaim c =
    if decide (VALID_EVENT_IDS_MAX_LEN < length (default [] (validEventIds c)))
    then Throw (too_many_validEventIds (length (default [] (validEventIds c))))
    else Ok (Str <$> PublicSignalVector c).
Proof.
  unfold publicSignalsFromClaim, PublicSignalVector.
  rewrite snarkInputForValidEventIds_eq, STATIC_TICKET_PCD_NULLIFIER_ok.
  destruct (attendeeEmail (partialTicket c)) as [email | ];
    destruct (attendeeName (partialTicket c)) as [name | ];
    rewrite ?generateSnarkMessageHash_ok; cbn [fmap result_fmap mbind result_bind];
    (case_decide; [ done | ]);
    cbn [mbind result_bind]; rewrite push_all; unfold push, js_or;
    destruct (externalNullifier c) as [ext | ]; try destruct (truthy ext);
    cbn [fmap result_fmap mbind result_bind];
    rewrite ?fmap_app, <- ?app_assoc; reflexivity.
Qed.

End EncoderFacts.

(** ** The slots of the vector *)

Section Slots.
Context {hash : JsSha256} {util : PcdUtil}.

Lemma publicSignalsFromClaim_fits (c : ZKEdDSAEventTicketPCDClaim) :
  allowlist_fits (validEventIds c) ->
  publicSignalsFromClaim c = Ok (Str <$> PublicSignalVector c).
Proof.
  intros Hfit. rewrite publicSignalsFromClaim_eq.
  unfold allowlist_fits in Hfit. case_decide; [ lia | done ].
Qed.


(** The slots after the allowlist. *)
Lemma PublicSignalVector_tail (c : ZKEdDSAEventTicketPCDClaim) :
  allowlist_fits (validEventIds c) ->
  PublicSignalVector c !! 35 = Some (if validEventIds c is Some _ then "1" else "0")
  /\ PublicSignalVector c !! 36
     = Some (js_or (externalNullifier c) (toString default_nullifier))
  /\ PublicSignalVector c !! 37 = Some (watermark c).
Proof.
  intros Hfit. pose proof (encodeAllowlist_length _ Hfit) as Hlen.
  unfold PublicSignalVector, VALID_EVENT_IDS_MAX_LEN in *.
  repeat split.
  all: rewrite lookup_app_r by (simpl; lia).
  all: rewrite lookup_app_r by (simpl; lia).
  all: cbn [length]; rewrite Hlen; reflexivity.
Qed.

(** The slots of the allowlist. *)
Lemma PublicSignalVector_allowlist (c : ZKEdDSAEventTicketPCDClaim) (i : nat) :
  i < 20 ->
  allowlist_fits (validEventIds c) ->
  PublicSignalVector c !! (15 + i) = encodeAllowlist (validEventIds c) !! i.
Proof.
  intros Hi Hfit. pose proof (encodeAllowlist_length _ Hfit) as Hlen.
  unfold PublicSignalVector, VALID_EVENT_IDS_MAX_LEN in *.
  rewrite lookup_app_r by (simpl; lia).
  rewrite lookup_app_l by (simpl; lia).
  f_equal. simpl. lia.
Qed.







End Slots.

(** ** The properties of the specification *)

Section Claims.
Context {hash : JsSha256} {util : PcdUtil}.





(** C5. [generateSnarkMessageHash] returns the 32-byte digest of the message
    read as a big-endian unsigned integer and shifted right by 8 bits: one
    value for each message, in [0, 2^248), hence below the field's [p - 1]. *)
Theorem generateSnarkMessageHash_digest (message : string) :
  bytes_of_hex (sha256 message) = Some (digest_bytes message)
  /\ length (digest_bytes message) = 32
  /\ generateSnarkMessageHash message
     = Ok (Z.shiftr (big_endian (digest_bytes message)) 8)
  /\ (exists! x, generateSnarkMessageHash message = Ok x)
  /\ (0 <= Z.shiftr (big_endian (digest_bytes message)) 8 < 2 ^ 248)%Z
  /\ (Z.shiftr (big_endian (digest_bytes message)) 8 < BABY_JUB_NEGATIVE_ONE)%Z.
Proof.
  destruct (digest_bytes_shape message) as (Hbytes & Hlen & _).
  pose proof (hashToFieldElement_range message) as Hrange.
  pose proof (generateSnarkMessageHash_ok message) as Hok.
  unfold hashToFieldElement in *.
  repeat split; try done; try lia.
  - exists (Z.shiftr (big_endian (digest_bytes message)) 8).
    split; [ done | ]. intros y Hy. rewrite Hok in Hy. by injection Hy.
  - eapply Z.lt_trans; [ apply Hrange | reflexivity ].
Qed.





End Claims.

Section FrontendClaims.
Context {util : PcdUtil} {package : TicketPCDPackage}.


End FrontendClaims.

(** ** The empty string in a slot written with [||] *)

Section EmptyStrings.
Context {hash : JsSha256} {util : PcdUtil}.


End EmptyStrings.

(** ** [BigInt] reads what [toString] prints *)

Section BigIntFacts.


Lemma strip_any_other (table : list (list N)) (c : ascii) (text : list ascii) :
  forallb (fun prefix => match prefix with
                         | b :: _ => negb (N_of_ascii c =? b)%N
                         | [] => false
                         end) table = true ->
  strip_any table (c :: text) = None.
Proof.
  unfold strip_any. induction table as [ | prefix table IH]; [ done | ].
  cbn [forallb]. intros Htable. apply andb_prop in Htable as [Hprefix Htable].
  destruct prefix as [ | b prefix]; [ done | ].
  cbn [omap list_omap strip]. apply negb_true_iff in Hprefix. rewrite Hprefix.
  by apply IH.
Qed.

Lemma strip_all_visible (reversed : bool) (steps : nat) (c : ascii) (text : list ascii) :
  visible c ->
  strip_all (if reversed then map (@rev N) white_space else white_space)
    steps (c :: text) = c :: text.
Proof.
  intros [Hlow Hhigh]. destruct steps as [ | steps]; [ done | ].
  cbn [strip_all]. rewrite strip_any_other; [ done | ].
  destruct reversed; cbn;
    repeat (apply andb_true_intro; split); try done;
    apply negb_true_iff, N.eqb_neq; lia.
Qed.

Lemma trim_visible (text : list ascii) (first final : ascii) :
  head text = Some first -> last text = Some final ->
  visible first -> visible final ->
  trim text = text.
Proof.
  intros Hfirst Hfinal Hvf Hvl. unfold trim.
  destruct text as [ | c text]; [ done | ]. injection Hfirst as ->.
  rewrite (strip_all_visible false) by done.
  apply last_Some in Hfinal as [body Hbody]. rewrite Hbody, rev_unit.
  rewrite (strip_all_visible true) by done.
  by rewrite <- rev_unit, rev_involutive.
Qed.


Lemma uint_value_acc (d : Decimal.uint) (acc : positive) :
  Z.pos (Pos.of_uint_acc d acc) = uint_value d (Z.pos acc).
Proof.
  revert acc. induction d; intros acc; cbn [Pos.of_uint_acc uint_value];
    [ done | rewrite IHd; f_equal; lia .. ].
Qed.

Lemma uint_value_of_uint (d : Decimal.uint) : Z.of_uint d = uint_value d 0.
Proof.
  unfold Z.of_uint. induction d; cbn [Pos.of_uint uint_value];
    [ done | by rewrite IHd | cbn [Z.of_N]; by rewrite uint_value_acc .. ].
Qed.

Lemma string_of_uint_digits (d : Decimal.uint) :
  Forall decimal_digit (list_ascii_of_string (NilEmpty.string_of_uint d)).
Proof.
  induction d; cbn [NilEmpty.string_of_uint list_ascii_of_string];
    [ constructor | constructor; [ split; apply N.leb_le; reflexivity | done ] .. ].
Qed.

Lemma radix_digits_uint (d : Decimal.uint) (acc : Z) :
  radix_digits 10 acc (list_ascii_of_string (NilEmpty.string_of_uint d))
  = Some (uint_value d acc).
Proof.
  revert acc. induction d; intros acc;
    cbn [NilEmpty.string_of_uint list_ascii_of_string radix_digits uint_value];
    [ done | .. ].
  all: change (hex_digit _) with (Some 0%Z) || change (hex_digit _) with (Some 1%Z)
       || change (hex_digit _) with (Some 2%Z) || change (hex_digit _) with (Some 3%Z)
       || change (hex_digit _) with (Some 4%Z) || change (hex_digit _) with (Some 5%Z)
       || change (hex_digit _) with (Some 6%Z) || change (hex_digit _) with (Some 7%Z)
       || change (hex_digit _) with (Some 8%Z) || change (hex_digit _) with (Some 9%Z).
  all: cbn [Z.ltb Z.compare Pos.compare Pos.compare_cont]; by rewrite ?Z.add_0_r, IHd.
Qed.

(** A non-empty run of decimal digits is read as a decimal numeral. *)
Lemma integer_literal_digits (text : list ascii) :
  text <> [] -> Forall decimal_digit text ->
  integer_literal text = radix_digits 10 0 text.
Proof.
  intros Hne Hdigits. destruct text as [ | c rest]; [ done | ].
  apply Forall_cons in Hdigits as [Hc Hrest]. unfold decimal_digit in Hc.
  unfold integer_literal.
  destruct (Ascii.eqb_spec c "+") as [-> | _]; [ cbn in Hc; lia | ].
  destruct (Ascii.eqb_spec c "-") as [-> | _]; [ cbn in Hc; lia | ].
  destruct (c =? "0")%char; [ | done ].
  destruct rest as [ | p digits]; [ done | ].
  apply Forall_cons in Hrest as [Hp _]. unfold decimal_digit in Hp.
  repeat match goal with
         | |- context [Ascii.eqb p ?x] =>
             destruct (Ascii.eqb_spec p x) as [-> | _]; [ cbn in Hp; lia | ]
         end.
  done.
Qed.

Lemma NilZero_digits (d : Decimal.uint) :
  let text := list_ascii_of_string (NilZero.string_of_uint d) in
  text <> [] /\ Forall decimal_digit text
  /\ radix_digits 10 0 text = Some (Z.of_uint d).
Proof.
  destruct d;
    try (split; [ done | split;
           [ apply (string_of_uint_digits (_ _))
           | rewrite uint_value_of_uint; apply (radix_digits_uint (_ _)) ] ]).
  repeat split; [ done | repeat constructor; apply N.leb_le; reflexivity ].
Qed.

Lemma decimal_digit_visible (c : ascii) : decimal_digit c -> visible c.
Proof. unfold decimal_digit, visible. lia. Qed.

Lemma Forall_last {A} (P : A -> Prop) (l : list A) (x : A) :
  Forall P l -> last l = Some x -> P x.
Proof.
  intros Hall Hlast. apply last_Some in Hlast as [body ->].
  apply Forall_app in Hall as [_ Hx]. by apply Forall_inv in Hx.
Qed.

Lemma trim_all_visible (text : list ascii) :
  Forall visible text -> trim text = text.
Proof.
  intros Hall. destruct text as [ | c text]; [ done | ].
  destruct (last_is_Some (c :: text)) as [_ [final Hfinal]]; [ done | ].
  eapply trim_visible; [ done | exact Hfinal | by apply Forall_inv in Hall | ].
  by eapply Forall_last.
Qed.

(** Every character of a numeral is visible. *)
Lemma toString_trim (x : Z) :
  trim (list_ascii_of_string (toString x)) = list_ascii_of_string (toString x).
Proof.
  apply trim_all_visible. unfold toString, NilZero.string_of_int.
  destruct (Z.to_int x) as [d | d]; destruct (NilZero_digits d) as (_ & Hdigits & _).
  - eapply Forall_impl; [ exact Hdigits | apply decimal_digit_visible ].
  - cbn [list_ascii_of_string]. constructor.
    + split; apply N.leb_le; reflexivity.
    + eapply Forall_impl; [ exact Hdigits | apply decimal_digit_visible ].
Qed.

(** [BigInt(x.toString())] is [x]. *)
Lemma BigInt_toString (x : Z) : BigInt (toString x) = Ok x.
Proof.
  unfold BigInt. rewrite toString_trim.
  assert (integer_literal (list_ascii_of_string (toString x)) = Some x) as ->; [ | done ].
  rewrite <- (DecimalZ.of_to x) at 2. unfold toString, NilZero.string_of_int, Z.of_int.
  destruct (Z.to_int x) as [d | d]; destruct (NilZero_digits d) as (Hne & Hdigits & Hvalue).
  - by rewrite integer_literal_digits.
  - cbn [list_ascii_of_string integer_literal]. cbn [Ascii.eqb Bool.eqb].
    unfold digits_value.
    destruct (list_ascii_of_string (NilZero.string_of_uint d)); [ done | ].
    by rewrite Hvalue.
Qed.

End BigIntFacts.

(** The text left by [strip_all] starts with no code point of the table. *)
Lemma strip_length (prefix : list N) (text rest : list ascii) :
  strip prefix text = Some rest -> length text = length prefix + length rest.
Proof.
  revert text. induction prefix as [ | b prefix IH]; intros text; cbn [strip].
  - by intros [= ->].
  - destruct text as [ | c text]; [ done | ]. case_match; [ | done ].
    intros Hrest. apply IH in Hrest. simpl. lia.
Qed.

Lemma strip_any_shorter (table : list (list N)) (text rest : list ascii) :
  Forall (fun prefix => prefix <> []) table ->
  strip_any table text = Some rest -> length rest < length text.
Proof.
  unfold strip_any. induction 1 as [ | prefix table Hprefix _ IH]; [ done | ].
  cbn [omap list_omap]. destruct (strip prefix text) as [rest' | ] eqn:Hstrip.
  - intros [= ->]. apply strip_length in Hstrip.
    destruct prefix; [ done | ]. simpl in Hstrip. lia.
  - exact IH.
Qed.

Lemma strip_all_done (table : list (list N)) (steps : nat) : forall text,
  Forall (fun prefix => prefix <> []) table ->
  length text <= steps ->
  strip_any table (strip_all table steps text) = None.
Proof.
  induction steps as [ | steps IH]; intros text Htable Hlen.
  - destruct text; [ | simpl in Hlen; lia ]. cbn [strip_all].
    unfold strip_any. induction Htable as [ | prefix table Hprefix _ IHt]; [ done | ].
    cbn [omap list_omap]. by destruct prefix.
  - cbn [strip_all]. destruct (strip_any table text) as [rest | ] eqn:Hstrip; [ | done ].
    apply IH; [ done | ]. apply strip_any_shorter in Hstrip; [ lia | done ].
Qed.

(** [BigInt('0x' + h)] as the hash computes it is [BigInt] of that string,
    for every [h] free of white space. *)
Lemma radix_digits_hex (s : string) (acc : Z) :
  radix_digits 16 acc (list_ascii_of_string s) = hex_digits acc s.
Proof.
  revert acc. induction s as [ | c s IH]; intros acc; [ done | ].
  cbn [list_ascii_of_string radix_digits hex_digits].
  destruct (hex_digit c) as [d | ] eqn:Hd; [ | done ].
  apply hex_digit_range in Hd. by rewrite (proj2 (Z.ltb_lt d 16)), IH by lia.
Qed.

Lemma BigInt_0x_BigInt (h : string) :
  Forall visible (list_ascii_of_string h) ->
  BigInt ("0x" ++ h) = BigInt_0x h.
Proof.
  intros Hvisible. unfold BigInt, BigInt_0x.
  change (list_ascii_of_string ("0x" +:+ h))
    with ("0"%char :: "x"%char :: list_ascii_of_string h).
  rewrite trim_all_visible
    by (repeat (constructor; [ split; apply N.leb_le; reflexivity | ]); done).
  cbn [integer_literal Ascii.eqb Bool.eqb orb]. unfold digits_value.
  destruct h as [ | c h]; [ done | ].
  cbn [list_ascii_of_string]. change (c :: list_ascii_of_string h)
    with (list_ascii_of_string (String c h)).
  rewrite radix_digits_hex. by destruct (hex_digits 0 (String c h)).
Qed.

(** ** [convertStringArrayToBigIntArray] *)

Section Conversion.


Lemma convert_values (signals : list string) (xs : list Z) :
  convertStringArrayToBigIntArray (Str <$> signals) = Normal xs
  <-> Forall2 (fun s x => BigInt s = Ok x) signals xs.
Proof.
  revert xs. induction signals as [ | s signals IH]; intros xs; cbn.
  - split; [ intros [= <-]; constructor | by inversion 1 ].
  - destruct (BigInt s) as [x | e] eqn:Hs; cbn.
    + destruct (convertStringArrayToBigIntArray (Str <$> signals)) as [xs' | e'] eqn:Hrest; cbn.
      * split.
        -- intros [= <-]. constructor; [ done | by apply IH ].
        -- inversion 1 as [ | ? y ? ys Hy Hys]; subst.
           apply IH in Hys. rewrite Hs in Hy. by simplify_eq.
      * split; [ done | ].
        inversion 1 as [ | ? y ? ys Hy Hys]; subst. by apply IH in Hys.
    + split; [ done | ]. inversion 1; congruence.
Qed.

Lemma convert_completes (signals : list string) :
  completes (convertStringArrayToBigIntArray (Str <$> signals)) = true
  <-> Forall (fun s => accepted s = true) signals.
Proof.
  unfold accepted. induction signals as [ | s signals IH]; cbn.
  - split; [ constructor | done ].
  - rewrite Forall_cons, <- IH. destruct (BigInt s) as [x | e]; cbn.
    + destruct (convertStringArrayToBigIntArray (Str <$> signals)); cbn; tauto.
    + split; [ done | by intros [? _] ].
Qed.


(** X2. [convertStringArrayToBigIntArray] reads back what [toString]
    prints: on the decimal strings of a list of integers, negative ones and
    zero included, it does not throw and returns these integers in order. *)
Theorem convertStringArrayToBigIntArray_toString (xs : list Z) :
  convertStringArrayToBigIntArray (Str <$> (toString <$> xs)) = Normal xs.
Proof.
  apply convert_values. induction xs as [ | x xs IH]; constructor; [ | done ].
  apply BigInt_toString.
Qed.

End Conversion.

(** ** [generateWitness] *)

Section WitnessFacts.
Context {hash : JsSha256} {util : PcdUtil}.







End WitnessFacts.

Section WitnessClaims.
Context {hash : JsSha256} {util : PcdUtil}.
Context {package : TicketPCDPackage} {proofs : TicketPCDProof}.

(** With two rows in [pi_b], what is left is the encoder and the
    conversion of its signals. *)
Lemma generateWitness_rows (pcd : ZKEdDSAEventTicketPCD) :
  2 <= length (pi_b (proof pcd)) ->
  generateWitness pcd
  = (signals ← completed (publicSignalsFromClaim (claim pcd));
     xs ← convertStringArrayToBigIntArray signals;
     mret ([ {| _pA := take 2 (pi_a (proof pcd));
                _pB := map (@rev string) (take 2 (pi_b (proof pcd)));
                _pC := take 2 (pi_c (proof pcd));
                _pubSignals := xs |} ],
           {| _pA := take 2 (pi_a (proof pcd));
              _pB := map (@rev string) (take 2 (pi_b (proof pcd)));
              _pC := take 2 (pi_c (proof pcd));
              _pubSignals := xs |})).
Proof.
  intros Hlen. unfold generateWitness.
  destruct (pi_b (proof pcd)) as [ | row0 [ | row1 rows]]; [ simpl in Hlen; lia .. | ].
  reflexivity.
Qed.

Lemma generateWitness_no_row (pcd : ZKEdDSAEventTicketPCD) :
  length (pi_b (proof pcd)) < 2 ->
  generateWitness pcd
  = Abrupt (TypeError "Cannot read properties of undefined (reading 'slice')").
Proof.
  intros Hlen. unfold generateWitness.
  destruct (pi_b (proof pcd)) as [ | row0 [ | row1 rows]]; [ done | done | ].
  simpl in Hlen. lia.
Qed.

Lemma publicSignalsFromClaim_exceeds (c : ZKEdDSAEventTicketPCDClaim) :
  ~ allowlist_fits (validEventIds c) ->
  publicSignalsFromClaim c
  = Throw (too_many_validEventIds (length (default [] (validEventIds c)))).
Proof.
  intros Hfit. rewrite publicSignalsFromClaim_eq. unfold allowlist_fits in Hfit.
  case_decide; [ done | lia ].
Qed.

(** When [generateWitness] returns, and what. *)
Lemma generateWitness_Normal (pcd : ZKEdDSAEventTicketPCD)
    (log : list Witness) (w : Witness) :
  generateWitness pcd = Normal (log, w)
  <-> 2 <= length (pi_b (proof pcd))
      /\ allowlist_fits (validEventIds (claim pcd))
      /\ Forall2 (fun s x => BigInt s = Ok x)
           (PublicSignalVector (claim pcd)) (_pubSignals w)
      /\ _pA w = take 2 (pi_a (proof pcd))
      /\ _pB w = map (@rev string) (take 2 (pi_b (proof pcd)))
      /\ _pC w = take 2 (pi_c (proof pcd))
      /\ log = [w].
Proof.
  destruct (decide (2 <= length (pi_b (proof pcd)))) as [Hlen | Hlen];
    [ | rewrite generateWitness_no_row by lia; split; [ done | tauto ] ].
  rewrite generateWitness_rows by done.
  destruct (decide (allowlist_fits (validEventIds (claim pcd)))) as [Hfit | Hfit];
    [ | rewrite publicSignalsFromClaim_exceeds by done; split; [ done | tauto ] ].
  rewrite publicSignalsFromClaim_fits by done. cbn [completed mbind completion_bind].
  destruct (convertStringArrayToBigIntArray (Str <$> PublicSignalVector (claim pcd)))
    as [xs | e] eqn:Hxs.
  - apply convert_values in Hxs. cbn [mret completion_ret]. split.
    + intros [= <- <-]. by repeat split.
    + intros (_ & _ & Hw & HA & HB & HC & ->). destruct w as [pA pB pC signals].
      cbn [_pA _pB _pC _pubSignals] in *. subst pA pB pC.
      assert (signals = xs) as ->; [ | done ].
      clear -Hxs Hw. revert signals Hw.
      induction Hxs as [ | s x ss xs Hx _ IH]; intros signals Hw;
        inversion Hw as [ | ? y ? ys Hy Hys]; subst; [ done | ].
      rewrite Hx in Hy. injection Hy as <-. f_equal. by apply IH.
  - split; [ done | ]. intros (_ & _ & Hw & _).
    apply convert_values in Hw. congruence.
Qed.



Lemma Forall2_BigInt_toString (xs ys : list Z) :
  Forall2 (fun s x => BigInt s = Ok x) (toString <$> xs) ys -> ys = xs.
Proof.
  revert ys. induction xs as [ | x xs IH]; intros ys; inversion 1 as [ | ? y ? ys' Hy Hys];
    subst; [ done | ].
  rewrite BigInt_toString in Hy. injection Hy as <-. f_equal. by apply IH.
Qed.




Lemma verifyProofFrontend_true (_pcd : SerializedPCD) (address : string) :
  (verifyProofFrontend _pcd address).2 = RetBool true -> checks_succeed _pcd address.
Proof.
  unfold verifyProofFrontend, isETHBerlinPublicKey, checks_succeed.
  destruct (verify (deserialize _pcd)); simpl; [ | done ].
  repeat case_bool_decide; simpl; try done; tauto.
Qed.

(** X6. A witness made from a PCD that [verifyProofFrontend] accepts for
    [address] has the two halves of the ETHBerlin key in signals 13 and 14
    and the address in signal 37, each as the integer [hexToBigInt] gives. *)
Theorem verified_witness (_pcd : SerializedPCD) (address : string)
    (log : list Witness) (w : Witness) :
  (verifyProofFrontend _pcd address).2 = RetBool true ->
  generateWitness (deserialize _pcd) = Normal (log, w) ->
  _pubSignals w !! 13
  = Some (hexToBigInt "1ebfb986fbac5113f8e2c72286fe9362f8e7d211dbc68227a468d7b919e75003")
  /\ _pubSignals w !! 14
     = Some (hexToBigInt "10ec38f11baacad5535525bbe8e343074a483c051aa1616266f3b1df3fb7d204")
  /\ _pubSignals w !! 37 = Some (hexToBigInt address).
Proof.
  intros Hchecks Hw. apply verifyProofFrontend_true in Hchecks as (_ & [HX HY] & Hmark).
  apply generateWitness_Normal in Hw as (_ & Hfit & Hxs & _).
  destruct (PublicSignalVector_tail _ Hfit) as (_ & _ & H37).
  assert (forall i x,
             PublicSignalVector (claim (deserialize _pcd)) !! i = Some (toString x) ->
             _pubSignals w !! i = Some x) as Hslot.
  { intros i x Hi. destruct (Forall2_lookup_l _ _ _ _ _ Hxs Hi) as (y & -> & Hy).
    rewrite BigInt_toString in Hy. by injection Hy as <-. }
  repeat split; apply Hslot.
  - by rewrite <- HX.
  - by rewrite <- HY.
  - by rewrite <- Hmark.
Qed.

End WitnessClaims.

(** ** More on the encoder *)



Lemma toString_inj (x y : Z) : toString x = toString y -> x = y.
Proof.
  intros Hxy. pose proof (BigInt_toString x) as Hx.
  rewrite Hxy, BigInt_toString in Hx. by injection Hx.
Qed.

#[global] Instance Str_inj : Inj (=) (=) Str.
Proof. by intros s1 s2 [= ->]. Qed.

Section EncoderMore.
Context {hash : JsSha256} {util : PcdUtil}.

Lemma big_endian_snoc (bs : list Z) (b : Z) :
  big_endian (bs ++ [b]) = (256 * big_endian bs + b)%Z.
Proof. unfold big_endian. by rewrite fold_left_app. Qed.

(** X7. [generateSnarkMessageHash] is the big-endian integer of the first
    31 bytes of the digest: the last byte of the digest has no influence,
    and messages whose digests agree on the first 31 bytes have the same
    hash. *)
Theorem generateSnarkMessageHash_31_bytes (message : string) :
  generateSnarkMessageHash message
  = Ok (big_endian (take 31 (digest_bytes message)))
  /\ (forall other,
        take 31 (digest_bytes message) = take 31 (digest_bytes other) ->
        generateSnarkMessageHash message = generateSnarkMessageHash other).
Proof.
  assert (forall m, generateSnarkMessageHash m = Ok (big_endian (take 31 (digest_bytes m))))
    as H31.
  { intros m. rewrite generateSnarkMessageHash_ok. f_equal. unfold hashToFieldElement.
    destruct (digest_bytes_shape m) as (_ & Hlen & Hbytes).
    destruct (digest_bytes m) as [ | b bs] eqn:Hm using rev_ind; [ done | ].
    clear IHbs. rewrite length_app in Hlen. simpl in Hlen.
    apply Forall_app in Hbytes as [_ Hb]. apply Forall_inv in Hb.
    rewrite take_app_length' by lia. rewrite big_endian_snoc.
    rewrite Z.shiftr_div_pow2 by lia. change (2 ^ 8)%Z with 256%Z.
    symmetry. apply Z.div_unique with (r := b); lia. }
  split; [ apply H31 | ]. intros other Heq. by rewrite !H31, Heq.
Qed.




(** X9. The 20 slots determine the allowlist: two lists of at most 20
    identifiers with the same slots are the same list, provided no
    identifier of theirs converts to p-1, the padding, and [uuidToBigInt]
    tells their identifiers apart. *)
Theorem snarkInputForValidEventIds_injective (ids ids' : list string) :
  length ids <= 20 -> length ids' <= 20 ->
  (forall id, id ∈ ids ++ ids' -> uuidToBigInt id <> BABY_JUB_NEGATIVE_ONE) ->
  (forall id1 id2, id1 ∈ ids ++ ids' -> id2 ∈ ids ++ ids' ->
      uuidToBigInt id1 = uuidToBigInt id2 -> id1 = id2) ->
  snarkInputForValidEventIds (Some ids) = snarkInputForValidEventIds (Some ids') ->
  ids = ids'.
Proof.
  intros Hlen Hlen' Hsentinel Hinj. rewrite !snarkInputForValidEventIds_eq.
  unfold VALID_EVENT_IDS_MAX_LEN, encodeAllowlist. simpl.
  do 2 (case_decide; [ lia | ]). intros [= Heq].
  apply (inj (fmap Str)) in Heq. unfold VALID_EVENT_IDS_MAX_LEN in Heq.
  assert (forall l l' : list string,
             length l <= length l' -> length l' <= 20 ->
             (forall id, id ∈ l' -> uuidToBigInt id <> BABY_JUB_NEGATIVE_ONE) ->
             map (fun id => toString (uuidToBigInt id)) l
               ++ replicate (20 - length l) NEGATIVE_ONE
             = map (fun id => toString (uuidToBigInt id)) l'
               ++ replicate (20 - length l') NEGATIVE_ONE ->
             length l = length l') as Hsame.
  { intros l l' Hle Hl' Hs Hll.
    destruct (decide (length l = length l')) as [ | Hne]; [ done | exfalso ].
    destruct (lookup_lt_is_Some_2 l' (length l)) as [id Hid]; [ lia | ].
    apply (f_equal (fun slots => slots !! length l)) in Hll.
    rewrite lookup_app_r in Hll by (rewrite length_map; lia).
    rewrite length_map, Nat.sub_diag, lookup_replicate_2 in Hll by lia.
    rewrite lookup_app_l in Hll by (rewrite length_map; lia).
    change (map ?f l') with (f <$> l') in Hll. rewrite list_lookup_fmap, Hid in Hll.
    injection Hll as Hll. apply toString_inj in Hll.
    eapply Hs; [ | by symmetry ]. by eapply list_elem_of_lookup_2. }
  assert (length ids = length ids') as Hn.
  { destruct (decide (length ids <= length ids')).
    - apply Hsame; try done. intros id Hid. apply Hsentinel, elem_of_app. by right.
    - symmetry. apply Hsame; try done; [ lia | ].
      intros id Hid. apply Hsentinel, elem_of_app. by left. }
  rewrite Hn in Heq. apply app_inv_tail in Heq.
  apply list_eq_same_length with (length ids); [ done | done | ].
  intros i id id' Hi Hid Hid'.
  apply (f_equal (fun slots => slots !! i)) in Heq.
  change (map ?f ?l) with (f <$> l) in Heq.
  rewrite !list_lookup_fmap, Hid, Hid' in Heq. injection Heq as Heq.
  apply toString_inj in Heq. apply Hinj; [ | | done ]; apply elem_of_app.
  - left. by eapply list_elem_of_lookup_2.
  - right. by eapply list_elem_of_lookup_2.
Qed.


End EncoderMore.


Section WitnessNumbers.
Context {hash : JsSha256} {util : PcdUtil}.
Context {package : TicketPCDPackage} {proofs : TicketPCDProof}.

(** X11. The integers of a witness. Whenever [generateWitness] returns:
    signal 11 is p-1; signal 35 is 1 with an allowlist and 0 without;
    signal 15+i is [uuidToBigInt] of the i-th allowed event, and p-1 from
    the end of the allowlist up to signal 34; a disclosed e-mail and a
    disclosed name are in signals 9 and 10 as their hashes, below 2^248;
    signals 13 and 14 are the halves of the signer's key; signal 36 is the
    static nullifier when no external nullifier is given; signal 37 is what
    [BigInt] reads from the watermark. *)
Theorem witness_numbers (pcd : ZKEdDSAEventTicketPCD)
    (log : list Witness) (w : Witness) :
  generateWitness pcd = Normal (log, w) ->
  _pubSignals w !! 11 = Some BABY_JUB_NEGATIVE_ONE
  /\ _pubSignals w !! 35 = Some (if validEventIds (claim pcd) is Some _ then 1 else 0)%Z
  /\ (forall i id, default [] (validEventIds (claim pcd)) !! i = Some id ->
        _pubSignals w !! (15 + i) = Some (uuidToBigInt id))
  /\ (forall i, length (default [] (validEventIds (claim pcd))) <= i < 20 ->
        _pubSignals w !! (15 + i) = Some BABY_JUB_NEGATIVE_ONE)
  /\ (forall email, attendeeEmail (partialTicket (claim pcd)) = Some email ->
        _pubSignals w !! 9 = Some (hashToFieldElement email)
        /\ (0 <= hashToFieldElement email < 2 ^ 248)%Z)
  /\ (forall name, attendeeName (partialTicket (claim pcd)) = Some name ->
        _pubSignals w !! 10 = Some (hashToFieldElement name)
        /\ (0 <= hashToFieldElement name < 2 ^ 248)%Z)
  /\ _pubSignals w !! 13 = Some (hexToBigInt (signer (claim pcd)).1)
  /\ _pubSignals w !! 14 = Some (hexToBigInt (signer (claim pcd)).2)
  /\ (externalNullifier (claim pcd) = None ->
        _pubSignals w !! 36 = Some default_nullifier)
  /\ (exists x, BigInt (watermark (claim pcd)) = Ok x /\ _pubSignals w !! 37 = Some x).
Proof.
  intros Hw. apply generateWitness_Normal in Hw as (_ & Hfit & Hxs & _).
  destruct (PublicSignalVector_tail _ Hfit) as (H35 & H36 & H37).
  assert (forall i x,
             PublicSignalVector (claim pcd) !! i = Some (toString x) ->
             _pubSignals w !! i = Some x) as Hslot.
  { intros i x Hi. destruct (Forall2_lookup_l _ _ _ _ _ Hxs Hi) as (y & -> & Hy).
    rewrite BigInt_toString in Hy. by injection Hy as <-. }
  split; [ by apply Hslot | ].
  split; [ apply Hslot; rewrite H35; by destruct (validEventIds (claim pcd)) | ].
  split; [ | split; [ | split; [ | split; [ | split; [ | split; [ | split ] ] ] ] ] ].
  - intros i id Hid. apply Hslot.
    rewrite PublicSignalVector_allowlist by (try done; apply lookup_lt_Some in Hid;
      unfold allowlist_fits, VALID_EVENT_IDS_MAX_LEN in Hfit; lia).
    unfold encodeAllowlist.
    rewrite lookup_app_l by (rewrite length_map; by eapply lookup_lt_Some).
    change (map ?f ?l) with (f <$> l). by rewrite list_lookup_fmap, Hid.
  - intros i Hi. apply Hslot. rewrite PublicSignalVector_allowlist by (done || lia).
    unfold encodeAllowlist, VALID_EVENT_IDS_MAX_LEN.
    rewrite lookup_app_r by (rewrite length_map; lia).
    apply lookup_replicate_2. rewrite length_map. lia.
  - intros email He. split; [ | apply hashToFieldElement_range ].
    apply Hslot. unfold PublicSignalVector. cbn. by rewrite He.
  - intros name Hn. split; [ | apply hashToFieldElement_range ].
    apply Hslot. unfold PublicSignalVector. cbn. by rewrite Hn.
  - by apply Hslot.
  - by apply Hslot.
  - intros Hext. apply Hslot. by rewrite H36, Hext.
  - destruct (Forall2_lookup_l _ _ _ _ _ Hxs H37) as (x & Hx & Hmark). by exists x.
Qed.

Lemma convert_snoc (signals : list string) (s : string) :
  convertStringArrayToBigIntArray (Str <$> signals ++ [s])
  = (xs ← convertStringArrayToBigIntArray (Str <$> signals);
     x ← completed (BigInt s);
     mret (xs ++ [x])).
Proof.
  induction signals as [ | s' signals IH]; cbn.
  - by destruct (BigInt s).
  - destruct (BigInt s') as [x' | e']; cbn; [ | done ].
    change (convertStringArrayToBigIntArray (Str <$> signals ++ [s]))
      with (convertStringArrayToBigIntArray (Str <$> signals ++ [s])) in IH |- *.
    rewrite IH.
    destruct (convertStringArrayToBigIntArray (Str <$> signals)) as [xs | e]; cbn; [ | done ].
    by destruct (BigInt s).
Qed.

(** X12. The witness depends on the watermark through its value alone:
    two PCDs with the same proof, whose claims differ in the spelling of the
    watermark only, both spellings read by [BigInt] as the same integer,
    give the same witness, or throw the same exception. *)
Theorem watermark_spelling (pcd pcd' : ZKEdDSAEventTicketPCD) (x : Z) :
  proof pcd' = proof pcd ->
  claim pcd' = with_watermark (claim pcd) (watermark (claim pcd')) ->
  BigInt (watermark (claim pcd)) = Ok x ->
  BigInt (watermark (claim pcd')) = Ok x ->
  generateWitness pcd' = generateWitness pcd.
Proof.
  intros Hproof Hclaim Hmark Hmark'.
  destruct (decide (2 <= length (pi_b (proof pcd)))) as [Hlen | Hlen];
    [ | by rewrite !generateWitness_no_row by (rewrite ?Hproof; lia) ].
  rewrite !generateWitness_rows by (rewrite ?Hproof; done). rewrite Hproof.
  assert (validEventIds (claim pcd') = validEventIds (claim pcd)) as Hids
    by by rewrite Hclaim.
  rewrite !publicSignalsFromClaim_eq, Hids. case_decide; [ done | ].
  cbn [completed mbind completion_bind].
  assert (forall c, exists front,
             PublicSignalVector c = front ++ [watermark c]
             /\ forall mark, PublicSignalVector (with_watermark c mark) = front ++ [mark])
    as Hfront.
  { intros c. eexists. split.
    - unfold PublicSignalVector.
      change [?f; ?e; watermark c] with ([f; e] ++ [watermark c]).
      rewrite !app_assoc. reflexivity.
    - intros mark. unfold PublicSignalVector at 1. cbn [with_watermark partialTicket
        watermark signer validEventIds externalNullifier nullifierHash].
      change [?f; ?e; mark] with ([f; e] ++ [mark]).
      by rewrite !app_assoc. }
  destruct (Hfront (claim pcd)) as (front & Hvector & Hother).
  rewrite Hclaim at 1. rewrite Hother, Hvector, !convert_snoc, Hmark, Hmark'. done.
Qed.

End WitnessNumbers.

(** ** SHA-256 implements the interface *)

Section HexRuns.

Lemma hex_run_app (n m : nat) (s t : string) :
  hex_run n s -> hex_run m t -> hex_run (n + m) (s ++ t).
Proof.
  intros [<- Hs] [<- Ht]. split.
  - clear Hs. induction s as [ | c s IH]; [ reflexivity | ].
    change (String c s +:+ t) with (String c (s +:+ t)). simpl. congruence.
  - induction s as [ | c s IH]; [ exact Ht | ].
    change (String c s +:+ t) with (String c (s +:+ t)).
    cbn [list_ascii_of_string forallb] in *.
    apply andb_prop in Hs as [-> Hs]. by apply IH.
Qed.

Lemma nibble_hex (x : Z) :
  bool_decide (is_Some (hex_digit (SHA256.nibble x))) = true.
Proof.
  unfold SHA256.nibble.
  pose proof (Z.mod_pos_bound x 16 eq_refl) as Hx.
  assert (Z.to_nat (x mod 16) < 16) as Hn by lia.
  destruct (Z.to_nat (x mod 16)) as [ | n]; [ reflexivity | ].
  do 15 (destruct n as [ | n]; [ reflexivity | ]). lia.
Qed.

Lemma word_hex_run (w : Z) : hex_run 8 (SHA256.word_hex w).
Proof.
  split; [ reflexivity | ].
  unfold SHA256.word_hex. cbn [seq map string_of_list_ascii list_ascii_of_string forallb].
  by rewrite !nibble_hex.
Qed.

Lemma hexdigest_shape (message : string) :
  hex_digest (SHA256.hexdigest message) = true.
Proof.
  assert (hex_run 64 (SHA256.hexdigest message)) as [Hlen Hall].
  { unfold SHA256.hexdigest.
    repeat (apply (hex_run_app 8); [ apply word_hex_run | ]).
    apply word_hex_run. }
  unfold hex_digest. by rewrite Hlen, Hall.
Qed.

End HexRuns.

(** [js-sha256], by SHA-256 itself. *)
#[global] Instance sha256_fips : JsSha256 := {|
  sha256 := SHA256.hexdigest;
  sha256_hex_digest := hexdigest_shape
|}.

#[global] Existing Instance pcd_util_by_digits.
#[global] Existing Instance package_by_verdict.
#[global] Existing Instance proof_of_package.

(** ** The encoder on concrete claims *)

(** SHA-256 on the test vectors of FIPS 180-4, and the default nullifier. *)
Example sha256_abc :
  sha256 "abc" = "ba7816bf8f01cfea414140de5dae2223b00361a396177a9cb410ff61f20015ad".
Proof. vm_compute. reflexivity. Qed.

Example sha256_empty :
  sha256 "" = "e3b0c44298fc1c149afbf4c8996fb92427ae41e4649b934ca495991b7852b855".
Proof. vm_compute. reflexivity. Qed.

Example sha256_two_blocks :
  sha256 "abcdbcdecdefdefgefghfghighijhijkijkljklmklmnlmnomnopnopq"
  = "248d6a61d20638b8e5c026930c3e6039a33ce45964ff2167f6ecedd419db06c1".
Proof. vm_compute. reflexivity. Qed.

Example STATIC_TICKET_PCD_NULLIFIER_value :
  STATIC_TICKET_PCD_NULLIFIER
  = Ok 306465440890318044973041747790316827840548833882931738783263710507404631669%Z.
Proof. vm_compute. reflexivity. Qed.

Example capacity_exceeded_21 :
  snarkInputForValidEventIds
    (Some (replicate 21 "53edb3e7-6733-41e0-a9be-488877c5c572"))
  = Throw (Error
      "validEventIds for a ZKEdDSAEventTicketPCD can have up to 100 entries.  21 given.").
Proof. vm_compute. reflexivity. Qed.

Example verifyProofFrontend_accepts :
  verifyProofFrontend (bare_claim, true) "0xf39Fd6e51aad88F6F4ce6aB8827279cffFb92266"
  = ([], RetBool true).
Proof. vm_compute. reflexivity. Qed.

Example verifyProofFrontend_other_address :
  verifyProofFrontend (bare_claim, true) "0x70997970C51812dc3A010C7d01b50e0d17dc79C8"
  = (["[ERROR Frontend] PCD watermark doesn't match"], RetUndefined).
Proof. vm_compute. reflexivity. Qed.

(** The properties above at the claims of the examples, with SHA-256 for
    [js-sha256]. *)









(** ** [BigInt] and [generateWitness] on concrete inputs *)

(** The empty string and white space alone are 0; white space around a
    numeral is dropped; a prefix selects the base and excludes a sign. *)
Example BigInt_literals :
  BigInt "" = Ok 0%Z
  /\ BigInt "   " = Ok 0%Z
  /\ BigInt "  42 " = Ok 42%Z
  /\ BigInt "007" = Ok 7%Z
  /\ BigInt "-17" = Ok (-17)%Z
  /\ BigInt "+17" = Ok 17%Z
  /\ BigInt "0x10" = Ok 16%Z
  /\ BigInt "0O17" = Ok 15%Z
  /\ BigInt "0b101" = Ok 5%Z
  /\ BigInt "-0x10" = Throw (SyntaxError "Cannot convert -0x10 to a BigInt")
  /\ BigInt "12abc" = Throw (SyntaxError "Cannot convert 12abc to a BigInt")
  /\ BigInt "1 2" = Throw (SyntaxError "Cannot convert 1 2 to a BigInt")
  /\ BigInt "1.5" = Throw (SyntaxError "Cannot convert 1.5 to a BigInt")
  /\ BigInt "0x" = Throw (SyntaxError "Cannot convert 0x to a BigInt")
  /\ BigInt "-" = Throw (SyntaxError "Cannot convert - to a BigInt").
Proof. vm_compute. repeat split. Qed.

Example BABY_JUB_NEGATIVE_ONE_literal :
  BigInt "21888242871839275222246405745257275088548364400416034343698204186575808495616"
  = Ok BABY_JUB_NEGATIVE_ONE.
Proof. vm_compute. reflexivity. Qed.

(** The key [getProof] asks a proof for is the key [verifyProofFrontend]
    accepts. *)
Example ETHBERLIN_ZUAUTH_CONFIG_key :
  Forall (fun config => isETHBerlinPublicKey (ZuAuth.publicKey config) = true)
    ZuAuth.ETHBERLIN_ZUAUTH_CONFIG.
Proof. constructor; [ vm_compute; reflexivity | constructor ]. Qed.

Example generateWitness_one_row :
  generateWitness
    (package := package_with_proof)
    ({| pi_a := ["11"; "12"; "1"]; pi_b := [["21"; "22"]]; pi_c := ["31"; "32"; "1"] |},
     ethberlin_claim, true)
  = Abrupt (TypeError "Cannot read properties of undefined (reading 'slice')").
Proof. vm_compute. reflexivity. Qed.

Example generateWitness_watermark_without_prefix :
  generateWitness
    (package := package_with_proof)
    (groth16_example, with_watermark bare_claim "f39Fd6e51aad88F6F4ce6aB8827279cffFb92266", true)
  = Abrupt (Raised (SyntaxError
      "Cannot convert f39Fd6e51aad88F6F4ce6aB8827279cffFb92266 to a BigInt")).
Proof. vm_compute. reflexivity. Qed.



Lemma verified_witness_bare :
  exists (log : list Witness) (w : Witness),
    generateWitness bare_pcd = Normal (log, w)
    /\ _pubSignals w !! 13
       = Some 13908133709081944902758389525983124100292637002438232157513257158004852609027%Z
    /\ _pubSignals w !! 37 = Some 1390849295786071768276380950238675083608645509734%Z.
Proof.
  destruct (generateWitness bare_pcd) as [[log w] | e] eqn:Hw;
    [ | vm_compute in Hw; discriminate ].
  exists log, w. split; [ reflexivity | ].
  destruct (verified_witness (package := package_with_proof)
              bare_pcd "0xf39Fd6e51aad88F6F4ce6aB8827279cffFb92266" log w)
    as (H13 & _ & H37); [ vm_compute; reflexivity | exact Hw | ].
  rewrite H13, H37. vm_compute. split; reflexivity.
Defined.


Lemma snarkInputForValidEventIds_injective_example :
  snarkInputForValidEventIds (Some ["53edb3e7-6733-41e0-a9be-488877c5c572"])
  <> snarkInputForValidEventIds
       (Some ["53edb3e7-6733-41e0-a9be-488877c5c572";
              "caa5cb88-19cc-4ee2-bf3d-6d379ce5e611"]).
Proof.
  intros Heq. apply snarkInputForValidEventIds_injective in Heq.
  - discriminate Heq.
  - cbn [length]. lia.
  - cbn [length]. lia.
  - intros id Hin Hid. cbn [app] in Hin.
    rewrite !elem_of_cons, elem_of_nil in Hin.
    destruct Hin as [-> | [-> | [-> | []]]]; vm_compute in Hid; discriminate Hid.
  - intros id1 id2 Hin1 Hin2 Hid. cbn [app] in Hin1, Hin2.
    rewrite !elem_of_cons, elem_of_nil in Hin1, Hin2.
    destruct Hin1 as [-> | [-> | [-> | []]]], Hin2 as [-> | [-> | [-> | []]]];
      first [ reflexivity | vm_compute in Hid; discriminate Hid ].
Defined.

Lemma witness_numbers_ethberlin :
  exists (log : list Witness) (w : Witness),
    generateWitness ethberlin_pcd = Normal (log, w)
    /\ _pubSignals w !! 9
       = Some 402950312125812299708438622701604510393857181619961602174473021593444689324%Z
    /\ _pubSignals w !! 11 = Some BABY_JUB_NEGATIVE_ONE
    /\ _pubSignals w !! 15 = Some 111560146890584288369567824893314450802%Z
    /\ _pubSignals w !! 16 = Some BABY_JUB_NEGATIVE_ONE
    /\ _pubSignals w !! 35 = Some 1%Z.
Proof.
  destruct (generateWitness ethberlin_pcd) as [[log w] | e] eqn:Hw;
    [ | vm_compute in Hw; discriminate ].
  exists log, w. split; [ reflexivity | ].
  destruct (witness_numbers ethberlin_pcd log w Hw)
    as (H11 & H35 & Hids & Hpad & Hemail & _).
  split; [ | split; [ exact H11 | split; [ | split; [ | exact H35 ] ] ] ].
  - destruct (Hemail "attendee@example.org" eq_refl) as [-> _]. vm_compute. reflexivity.
  - etransitivity; [ exact (Hids 0 "53edb3e7-6733-41e0-a9be-488877c5c572" eq_refl) | ].
    vm_compute. reflexivity.
  - apply (Hpad 1). change (1 <= 1 < 20). lia.
Defined.

Lemma watermark_spelling_hex :
  generateWitness hex_watermark_pcd = generateWitness bare_pcd.
Proof.
  apply (watermark_spelling bare_pcd hex_watermark_pcd
           1390849295786071768276380950238675083608645509734%Z).
  - reflexivity.
  - reflexivity.
  - vm_compute. reflexivity.
  - vm_compute. reflexivity.
Defined.
